(** * HTM: parallax scene and star-size model of [script.js]

    A shallow embedding of the two simulations of [script.js]:
    [initParallaxSim] (orbital angle driven by the mouse, canvas redraw,
    parallax and distance read-outs) and [initSizeSim] (radius, pixel size
    and colour derived from two sliders).

    Number model.  A JavaScript Number is modelled by a real number: [+],
    [-], [*], [/], [Math.cos], [Math.sin], [Math.sqrt], [Math.abs] are the
    operations of [R], so the theorems speak about the formulas the code
    evaluates and not about the rounding of binary64 arithmetic.  The one
    place where the code can produce NaN from finite operands, [x % 0], is
    kept: [js_rem] returns [None] there.  The module [Binary64] repeats the
    arithmetic of [updateStar] and of the distance guard on the kernel's
    binary64 floats, where it can be run. *)

From Stdlib Require Import Floats.
From Stdlib Require Import Reals Lra Lia List String Bool ZArith.
Import ListNotations.

Open Scope R_scope.

(** ** JavaScript numeric primitives *)

(** [Math.atan2(y, x)]: the angle of the point [(x, y)], in [(-PI, PI]];
    [atan2(0, 0)] is [0]. *)
Definition atan2 (y x : R) : R :=
  if Rlt_dec 0 x then atan (y / x)
  else if Rlt_dec x 0 then
    if Rle_dec 0 y then atan (y / x) + PI else atan (y / x) - PI
  else if Rlt_dec 0 y then PI / 2
  else if Rlt_dec y 0 then - (PI / 2)
  else 0.

(** Truncation toward zero, as an integer-valued real. *)
Definition Rtrunc (x : R) : R :=
  if Rle_dec 0 x then IZR (Int_part x) else - IZR (Int_part (- x)).

(** [x % y]: the remainder has the sign of the dividend; NaN when [y] is 0. *)
Definition js_rem (x y : R) : option R :=
  if Req_dec_T y 0 then None else Some (x - y * Rtrunc (x / y)).

(** ** Text written to the page

    [textContent] and style values are strings built from numbers; the
    number-to-string conversions are kept symbolic. *)
Inductive piece : Type :=
| Str (s : string)                 (* a literal *)
| Num (x : R)                      (* String(x), as in [x + "px"] *)
| Fixed (x : R) (digits : nat).    (* x.toFixed(digits) *)

Definition text := list piece.

Definition dquote : string := String (Ascii.ascii_of_nat 34) EmptyString.

(** ** Parallax simulation *)

Module Parallax.

(** The canvas size, set once by [initParallaxSim]. *)
Record Canvas : Type := { width : R; height : R }.

(** Calls on the 2D context, in the order they are issued. *)
Inductive ctx_op : Type :=
| clearRect (x y w h : R)
| fillStyle (s : string)
| fillRect (x y : option R) (w h : R)
| beginPath
| arc (x y r a0 a1 : R)
| ellipse (x y rx ry rot a0 a1 : R)
| shadowBlur (v : R)
| shadowColor (s : string)
| fill
| strokeStyle (s : string)
| stroke
| moveTo (x y : R)
| lineTo (x y : R)
| setLineDash (l : list R)
| font (s : string)
| fillText (s : string) (x y : R).

(** The closure state of [initParallaxSim] together with its output sinks. *)
Record World : Type := {
  earthAngle : R;
  isDragging : bool;
  canvasLog : list ctx_op;
  angleDisplay : text;
  distDisplay : text
}.

Section Scene.

Variable canvas : Canvas.

Definition centerX : R := width canvas / 2.
Definition centerY : R := height canvas * 0.8.
Definition orbitRadius : R := 100.
Definition starDist : R := 300.

(** Body of the background-star loop for index [i]. *)
Definition star_rx (i : nat) : option R :=
  js_rem (sin (INR i) * 10000) (width canvas).
Definition star_ry (i : nat) : option R :=
  js_rem (cos (INR i) * 10000) (height canvas / 2).
Definition star_op (i : nat) : ctx_op :=
  fillRect (option_map Rabs (star_rx i)) (option_map Rabs (star_ry i)) 1 1.

(** The context calls of one [draw()], for the current angle. *)
Definition draw_ops (angle : R) : list ctx_op :=
  let ex := centerX + cos angle * orbitRadius in
  let ey := centerY + sin angle * (orbitRadius * 0.3) in
  let starX := centerX in
  let starY := centerY - 150 in
  let vecX := starX - ex in
  let vecY := starY - ey in
  let scale := 2.5 in
  let projX := ex + vecX * scale in
  let projY := ey + vecY * scale in
  [clearRect 0 0 (width canvas) (height canvas);
   fillStyle "#FFF"]
  ++ map star_op (seq 0 50)
  ++ [beginPath;
      arc centerX centerY 20 0 (PI * 2);
      fillStyle "#FFD700";
      shadowBlur 20;
      shadowColor "#FFD700";
      fill;
      shadowBlur 0;
      beginPath;
      ellipse centerX centerY orbitRadius (orbitRadius * 0.3) 0 0 (PI * 2);
      strokeStyle "rgba(255, 255, 255, 0.2)";
      stroke;
      beginPath;
      arc ex ey 8 0 (PI * 2);
      fillStyle "#00F3FF";
      fill;
      beginPath;
      arc starX starY 5 0 (PI * 2);
      fillStyle "#FF4444";
      shadowBlur 10;
      shadowColor "#FF4444";
      fill;
      shadowBlur 0;
      beginPath;
      moveTo ex ey;
      lineTo starX starY;
      strokeStyle "rgba(0, 243, 255, 0.5)";
      setLineDash [5; 5];
      stroke;
      setLineDash [];
      beginPath;
      arc projX projY 4 0 (PI * 2);
      fillStyle "rgba(255, 255, 255, 0.8)";
      fill;
      fillStyle "#AAA";
      font "10px Arial";
      fillText "Apparent Position" (projX + 10) projY].

Definition draw (w : World) : World :=
  {| earthAngle := earthAngle w;
     isDragging := isDragging w;
     canvasLog := canvasLog w ++ draw_ops (earthAngle w);
     angleDisplay := angleDisplay w;
     distDisplay := distDisplay w |}.

(** [updateData]: the locals, as functions of the angle. *)
Definition earthX (angle : R) : R := cos angle * orbitRadius.
Definition maxAngle : R := 0.76.
Definition currentAngle (angle : R) : R :=
  Rabs ((earthX angle / orbitRadius) * maxAngle).

(** The right-hand side assigned to [dist]: either the quotient of the
    guarded branch or the constant of the [else] branch. *)
Inductive dist_rhs : Type :=
| Quotient (num den : R)
| Constant (v : R).

Definition dist_branch (cur : R) : dist_rhs :=
  if Rlt_dec 0.01 cur then Quotient 1 cur else Constant 100.

Definition dist_value (rhs : dist_rhs) : R :=
  match rhs with
  | Quotient num den => num / den
  | Constant v => v
  end.

Definition dist (angle : R) : R := dist_value (dist_branch (currentAngle angle)).

Definition updateData (w : World) : World :=
  {| earthAngle := earthAngle w;
     isDragging := isDragging w;
     canvasLog := canvasLog w;
     angleDisplay := [Fixed (currentAngle (earthAngle w)) 3; Str dquote];
     distDisplay := [Fixed (dist (earthAngle w)) 2; Str " pc"] |}.

Definition set_earthAngle (a : R) (w : World) : World :=
  {| earthAngle := a;
     isDragging := isDragging w;
     canvasLog := canvasLog w;
     angleDisplay := angleDisplay w;
     distDisplay := distDisplay w |}.

Definition set_isDragging (b : bool) (w : World) : World :=
  {| earthAngle := earthAngle w;
     isDragging := b;
     canvasLog := canvasLog w;
     angleDisplay := angleDisplay w;
     distDisplay := distDisplay w |}.

Definition updateEarthPos (mouseX mouseY : R) (w : World) : World :=
  let dx := mouseX - centerX in
  let dy := mouseY - centerY in
  updateData (draw (set_earthAngle (atan2 dy dx) w)).

(** A mouse event carries the client coordinates; [rect] is what
    [canvas.getBoundingClientRect()] returns when the handler runs. *)
Record MouseEvent : Type := {
  clientX : R; clientY : R;
  rect_left : R; rect_top : R
}.

Definition on_mousedown (e : MouseEvent) (w : World) : World :=
  let x := clientX e - rect_left e in
  let y := clientY e - rect_top e in
  updateEarthPos x y (set_isDragging true w).

Definition on_mousemove (e : MouseEvent) (w : World) : World :=
  if negb (isDragging w) then w
  else
    let x := clientX e - rect_left e in
    let y := clientY e - rect_top e in
    updateEarthPos x y w.

Definition on_mouseup (w : World) : World := set_isDragging false w.

Inductive event : Type :=
| mousedown (e : MouseEvent)
| mousemove (e : MouseEvent)
| mouseup.

Definition handle (ev : event) (w : World) : World :=
  match ev with
  | mousedown e => on_mousedown e w
  | mousemove e => on_mousemove e w
  | mouseup => on_mouseup w
  end.

(** The handlers run one after the other, each to completion. *)
Definition run (evs : list event) (w : World) : World :=
  fold_left (fun w ev => handle ev w) evs w.

(** State after [initParallaxSim]: the initial draw, no [updateData];
    the two read-outs keep what the page had. *)
Definition initParallaxSim (angle0 dist0 : text) : World :=
  draw {| earthAngle := 0; isDragging := false; canvasLog := [];
          angleDisplay := angle0; distDisplay := dist0 |}.

(** The positions of the 1x1 rectangles among a list of context calls. *)
Definition background_stars (ops : list ctx_op) : list (option R * option R) :=
  flat_map (fun op => match op with
                      | fillRect x y _ _ => [(x, y)]
                      | _ => []
                      end) ops.

Definition star_position (i : nat) : option R * option R :=
  (option_map Rabs (star_rx i), option_map Rabs (star_ry i)).

End Scene.

End Parallax.

(** ** Size simulation *)

Module SizeSim.

Definition T_sun : R := 5800.
Definition T_rel (T : R) : R := T / T_sun.
Definition R_rel (L T : R) : R := sqrt L / (T_rel T * T_rel T).

(** [pxSize] after the two clamping statements. *)
Definition pxSize (L T : R) : R :=
  let px := 100 * R_rel L T in
  let px := if Rlt_dec px 5 then 5 else px in
  let px := if Rlt_dec 300 px then 300 else px in
  px.

(** The three colour variables after the [if] chain on the temperature. *)
Record Colors : Type := {
  colorStart : string;
  colorEnd : string;
  glow : string
}.

Definition colors (T : R) : Colors :=
  if Rlt_dec T 4000 then
    {| colorStart := "#ff8844"; colorEnd := "#cc2200"; glow := "#ff2200" |}
  else if Rlt_dec T 6000 then
    {| colorStart := "#ffdd44"; colorEnd := "#cc9900"; glow := "#ffaa00" |}
  else if Rlt_dec T 8000 then
    {| colorStart := "#ffffff"; colorEnd := "#cccccc"; glow := "#ccccff" |}
  else
    {| colorStart := "#aaddff"; colorEnd := "#4488ff"; glow := "#0088ff" |}.

(** What [updateStar] writes: three labels and the style of [starVisual]. *)
Record Page : Type := {
  lumVal : text;
  tempVal : text;
  radiusVal : text;
  style_width : text;
  style_height : text;
  style_background : text;
  style_boxShadow : text
}.

(** [L] and [T] are the parsed slider values. *)
Definition updateStar (L T : R) : Page :=
  let c := colors T in
  {| lumVal := [Num L; Str "x Sun"];
     tempVal := [Num T; Str " K"];
     radiusVal := [Fixed (R_rel L T) 2; Str " x Sun"];
     style_width := [Num (pxSize L T); Str "px"];
     style_height := [Num (pxSize L T); Str "px"];
     style_background :=
       [Str "radial-gradient(circle at 30% 30%, "; Str (colorStart c);
        Str ", "; Str (colorEnd c); Str ")"];
     style_boxShadow :=
       [Str "0 0 "; Num (pxSize L T / 2); Str "px "; Str (glow c)] |}.

End SizeSim.

(** ** The same arithmetic on binary64 floats *)

Module Binary64.

#[local] Set Warnings "-inexact-float".
Open Scope float_scope.

Definition T_sun : float := 5800.
Definition T_rel (T : float) : float := T / T_sun.
Definition R_rel (L T : float) : float := PrimFloat.sqrt L / (T_rel T * T_rel T).

Definition pxSize (L T : float) : float :=
  let px := 100 * R_rel L T in
  let px := if px <? 5 then 5 else px in
  let px := if 300 <? px then 300 else px in
  px.

Definition colors (T : float) : SizeSim.Colors :=
  if T <? 4000 then
    {| SizeSim.colorStart := "#ff8844"; SizeSim.colorEnd := "#cc2200";
       SizeSim.glow := "#ff2200" |}
  else if T <? 6000 then
    {| SizeSim.colorStart := "#ffdd44"; SizeSim.colorEnd := "#cc9900";
       SizeSim.glow := "#ffaa00" |}
  else if T <? 8000 then
    {| SizeSim.colorStart := "#ffffff"; SizeSim.colorEnd := "#cccccc";
       SizeSim.glow := "#ccccff" |}
  else
    {| SizeSim.colorStart := "#aaddff"; SizeSim.colorEnd := "#4488ff";
       SizeSim.glow := "#0088ff" |}.

(** [dist] as computed from [currentAngle]. *)
Definition dist_of (cur : float) : float :=
  if 0.01 <? cur then 1 / cur else 100.

End Binary64.

(** ** The colour table of the specification

    The four rows of the table, to compare [SizeSim.colors] with. *)

Definition band1 : SizeSim.Colors :=
  {| SizeSim.colorStart := "#ff8844"; SizeSim.colorEnd := "#cc2200";
     SizeSim.glow := "#ff2200" |}.
Definition band2 : SizeSim.Colors :=
  {| SizeSim.colorStart := "#ffdd44"; SizeSim.colorEnd := "#cc9900";
     SizeSim.glow := "#ffaa00" |}.
Definition band3 : SizeSim.Colors :=
  {| SizeSim.colorStart := "#ffffff"; SizeSim.colorEnd := "#cccccc";
     SizeSim.glow := "#ccccff" |}.
Definition band4 : SizeSim.Colors :=
  {| SizeSim.colorStart := "#aaddff"; SizeSim.colorEnd := "#4488ff";
     SizeSim.glow := "#0088ff" |}.

(** ** A sample scene

    An 800 x 600 canvas whose bounding rectangle starts at (10, 10); the sun
    is at (400, 480).  [press_near] and [press_far] lie on the same ray from
    the sun, at 45 degrees up and to the right. *)

Definition canvas0 : Parallax.Canvas :=
  {| Parallax.width := 800; Parallax.height := 600 |}.

Definition world0 : Parallax.World := Parallax.initParallaxSim canvas0 [] [].

Definition press_near : Parallax.MouseEvent :=
  {| Parallax.clientX := 510; Parallax.clientY := 390;
     Parallax.rect_left := 10; Parallax.rect_top := 10 |}.

Definition press_far : Parallax.MouseEvent :=
  {| Parallax.clientX := 610; Parallax.clientY := 290;
     Parallax.rect_left := 10; Parallax.rect_top := 10 |}.

(** ** The 2D context as a state machine

    What the calls of [draw] do to the drawing state of the context, and what
    each painting call puts on the canvas.  Only the attributes [draw] sets
    are tracked; the shadow offsets stay 0, so a shadow is painted exactly
    when [shadowBlur] is not 0. *)

Module Canvas2D.

Import Parallax.

Record ctx_state : Type := {
  st_fillStyle : string;
  st_strokeStyle : string;
  st_shadowBlur : R;
  st_shadowColor : string;
  st_lineDash : list R;
  st_font : string;
  st_path : list ctx_op
}.

(** A fresh context. *)
Definition default_state : ctx_state :=
  {| st_fillStyle := "#000000"; st_strokeStyle := "#000000";
     st_shadowBlur := 0; st_shadowColor := "rgba(0, 0, 0, 0)";
     st_lineDash := []; st_font := "10px sans-serif"; st_path := [] |}.

(** The shadow a painting call casts: none when the blur is 0. *)
Definition shadow_of (blur : R) (color : string) : option (R * string) :=
  if Req_dec_T blur 0 then None else Some (blur, color).

Definition shadow (s : ctx_state) : option (R * string) :=
  shadow_of (st_shadowBlur s) (st_shadowColor s).

Definition add_path (op : ctx_op) (s : ctx_state) : ctx_state :=
  {| st_fillStyle := st_fillStyle s; st_strokeStyle := st_strokeStyle s;
     st_shadowBlur := st_shadowBlur s; st_shadowColor := st_shadowColor s;
     st_lineDash := st_lineDash s; st_font := st_font s;
     st_path := st_path s ++ [op] |}.

(** The state after one call. *)
Definition exec_op (op : ctx_op) (s : ctx_state) : ctx_state :=
  match op with
  | fillStyle v =>
      {| st_fillStyle := v; st_strokeStyle := st_strokeStyle s;
         st_shadowBlur := st_shadowBlur s; st_shadowColor := st_shadowColor s;
         st_lineDash := st_lineDash s; st_font := st_font s;
         st_path := st_path s |}
  | strokeStyle v =>
      {| st_fillStyle := st_fillStyle s; st_strokeStyle := v;
         st_shadowBlur := st_shadowBlur s; st_shadowColor := st_shadowColor s;
         st_lineDash := st_lineDash s; st_font := st_font s;
         st_path := st_path s |}
  | shadowBlur v =>
      {| st_fillStyle := st_fillStyle s; st_strokeStyle := st_strokeStyle s;
         st_shadowBlur := v; st_shadowColor := st_shadowColor s;
         st_lineDash := st_lineDash s; st_font := st_font s;
         st_path := st_path s |}
  | shadowColor v =>
      {| st_fillStyle := st_fillStyle s; st_strokeStyle := st_strokeStyle s;
         st_shadowBlur := st_shadowBlur s; st_shadowColor := v;
         st_lineDash := st_lineDash s; st_font := st_font s;
         st_path := st_path s |}
  | setLineDash v =>
      {| st_fillStyle := st_fillStyle s; st_strokeStyle := st_strokeStyle s;
         st_shadowBlur := st_shadowBlur s; st_shadowColor := st_shadowColor s;
         st_lineDash := v; st_font := st_font s;
         st_path := st_path s |}
  | font v =>
      {| st_fillStyle := st_fillStyle s; st_strokeStyle := st_strokeStyle s;
         st_shadowBlur := st_shadowBlur s; st_shadowColor := st_shadowColor s;
         st_lineDash := st_lineDash s; st_font := v;
         st_path := st_path s |}
  | beginPath =>
      {| st_fillStyle := st_fillStyle s; st_strokeStyle := st_strokeStyle s;
         st_shadowBlur := st_shadowBlur s; st_shadowColor := st_shadowColor s;
         st_lineDash := st_lineDash s; st_font := st_font s;
         st_path := [] |}
  | arc _ _ _ _ _ | ellipse _ _ _ _ _ _ _ | moveTo _ _ | lineTo _ _ =>
      add_path op s
  | clearRect _ _ _ _ | fillRect _ _ _ _ | fill | stroke | fillText _ _ _ => s
  end.

(** What a painting call puts on the canvas, with the attributes it uses. *)
Inductive paint : Type :=
| PClear (x y w h : R)
| PFillRect (x y : option R) (w h : R) (style : string)
            (sh : option (R * string))
| PFill (path : list ctx_op) (style : string) (sh : option (R * string))
| PStroke (path : list ctx_op) (style : string) (dash : list R)
          (sh : option (R * string))
| PText (t : string) (x y : R) (style fnt : string)
        (sh : option (R * string)).

Definition paint_op (op : ctx_op) (s : ctx_state) : list paint :=
  match op with
  | clearRect x y w h => [PClear x y w h]
  | fillRect x y w h => [PFillRect x y w h (st_fillStyle s) (shadow s)]
  | fill => [PFill (st_path s) (st_fillStyle s) (shadow s)]
  | stroke => [PStroke (st_path s) (st_strokeStyle s) (st_lineDash s) (shadow s)]
  | fillText t x y => [PText t x y (st_fillStyle s) (st_font s) (shadow s)]
  | _ => []
  end.

Fixpoint exec (ops : list ctx_op) (s : ctx_state) : ctx_state :=
  match ops with
  | [] => s
  | op :: rest => exec rest (exec_op op s)
  end.

Fixpoint paints (ops : list ctx_op) (s : ctx_state) : list paint :=
  match ops with
  | [] => []
  | op :: rest => paint_op op s ++ paints rest (exec_op op s)
  end.

End Canvas2D.

(** ** The size simulation and its two sliders

    [initSizeSim] registers [updateStar] on the [input] event of both
    sliders and calls it once.  A slider holds its parsed value; the browser
    stores the new value before the listener runs. *)

Module SizeEvents.

Record Sim : Type := {
  lumSlider : R;
  tempSlider : R;
  page : SizeSim.Page
}.

Inductive input : Type :=
| input_lum (v : R)
| input_temp (v : R).

(** [updateStar] as the listener: it reads both sliders again. *)
Definition updateStar (lum temp : R) : Sim :=
  {| lumSlider := lum; tempSlider := temp;
     page := SizeSim.updateStar lum temp |}.

Definition on_input (i : input) (s : Sim) : Sim :=
  match i with
  | input_lum v => updateStar v (tempSlider s)
  | input_temp v => updateStar (lumSlider s) v
  end.

Definition initSizeSim (lum0 temp0 : R) : Sim := updateStar lum0 temp0.

Definition run (inputs : list input) (s : Sim) : Sim :=
  fold_left (fun s i => on_input i s) inputs s.

(** The value a slider holds after the inputs. *)
Definition last_lum (inputs : list input) (lum0 : R) : R :=
  fold_left (fun l i => match i with input_lum v => v | input_temp _ => l end)
            inputs lum0.
Definition last_temp (inputs : list input) (temp0 : R) : R :=
  fold_left (fun t i => match i with input_temp v => v | input_lum _ => t end)
            inputs temp0.

End SizeEvents.

(** ** Predicates on the parallax scene *)

(** Both read-outs show the values of the current angle. *)
Definition readouts_current (w : Parallax.World) : Prop :=
  Parallax.angleDisplay w =
    [Fixed (Parallax.currentAngle (Parallax.earthAngle w)) 3; Str dquote] /\
  Parallax.distDisplay w =
    [Fixed (Parallax.dist (Parallax.earthAngle w)) 2; Str " pc"].

(** The two-state machine of the drag flag: a press sets it, a release
    clears it, a move leaves it. *)
Definition dragging_after (evs : list Parallax.event) (b : bool) : bool :=
  fold_left (fun b ev => match ev with
                         | Parallax.mousedown _ => true
                         | Parallax.mousemove _ => b
                         | Parallax.mouseup => false
                         end) evs b.

(** A move or a release. *)
Definition not_press (ev : Parallax.event) : Prop :=
  match ev with Parallax.mousedown _ => False | _ => True end.

(** * Properties *)

Import Parallax.

(** ** Parallax read-outs *)

Lemma orbitRadius_cancel (c : R) : c * orbitRadius / orbitRadius = c.
Proof. unfold orbitRadius. field. Qed.

Lemma currentAngle_cos (a : R) : currentAngle a = Rabs (cos a) * maxAngle.
Proof.
  unfold currentAngle, earthX.
  rewrite orbitRadius_cancel, Rabs_mult.
  f_equal. apply Rabs_pos_eq. unfold maxAngle. lra.
Qed.

Lemma Rabs_cos_le_1 (a : R) : Rabs (cos a) <= 1.
Proof. apply Rabs_le. pose proof (COS_bound a). lra. Qed.

Lemma currentAngle_range (a : R) : 0 <= currentAngle a <= maxAngle.
Proof.
  rewrite currentAngle_cos.
  pose proof (Rabs_pos (cos a)). pose proof (Rabs_cos_le_1 a).
  unfold maxAngle. split; nra.
Qed.

(** C1: the parallax angle written by [updateData] is
    [abs (cos angle * maxAngle)] with [maxAngle = 0.76], shown with three
    decimals and a trailing double quote, and it lies in [[0, maxAngle]]. *)
Theorem C1_parallax_angle_formula_and_range :
  forall w : World,
    maxAngle = 0.76 /\
    angleDisplay (updateData w) =
      [Fixed (Rabs (cos (earthAngle w) * maxAngle)) 3; Str dquote] /\
    currentAngle (earthAngle w) = Rabs (cos (earthAngle w) * maxAngle) /\
    0 <= currentAngle (earthAngle w) <= maxAngle.
Proof.
  intros w.
  assert (E : currentAngle (earthAngle w) = Rabs (cos (earthAngle w) * maxAngle)).
  { unfold currentAngle, earthX. now rewrite orbitRadius_cancel. }
  split; [reflexivity|].
  split; [cbn [updateData angleDisplay]; now rewrite E|].
  split; [exact E|].
  apply currentAngle_range.
Qed.

(** The two scenarios of the specification. *)
Lemma scenario_angle_0 : currentAngle 0 = maxAngle /\ dist 0 = 1 / maxAngle.
Proof.
  assert (E : currentAngle 0 = maxAngle).
  { rewrite currentAngle_cos, cos_0, Rabs_R1. ring. }
  split; [exact E|].
  unfold dist, dist_branch. rewrite E.
  destruct (Rlt_dec 0.01 maxAngle) as [_ | H]; [reflexivity|].
  unfold maxAngle in H. lra.
Qed.

Lemma scenario_angle_PI2 : currentAngle (PI / 2) = 0 /\ dist (PI / 2) = 100.
Proof.
  assert (E : currentAngle (PI / 2) = 0).
  { rewrite currentAngle_cos, cos_PI2, Rabs_R0. ring. }
  split; [exact E|].
  unfold dist, dist_branch. rewrite E.
  destruct (Rlt_dec 0.01 0) as [H | _]; [lra|reflexivity].
Qed.

(** C7: the parallax angle is the same at [a], at [-a] and at [PI - a]. *)
Theorem C7_parallax_angle_symmetry :
  forall a : R,
    currentAngle a = currentAngle (- a) /\
    currentAngle a = currentAngle (PI - a).
Proof.
  intros a. rewrite !currentAngle_cos. split.
  - now rewrite cos_neg.
  - replace (PI - a) with (- a + PI) by ring.
    now rewrite neg_cos, cos_neg, Rabs_Ropp.
Qed.

(** C2: the distance is [1 / currentAngle] when [currentAngle > 0.01] and
    the constant 100 otherwise; it is what [updateData] shows with two
    decimals; a quotient is assigned only with a divisor above 0.01. *)
Theorem C2_distance_guard :
  forall w : World,
    let cur := currentAngle (earthAngle w) in
    distDisplay (updateData w) = [Fixed (dist (earthAngle w)) 2; Str " pc"] /\
    (0.01 < cur -> dist (earthAngle w) = 1 / cur) /\
    (cur <= 0.01 -> dist (earthAngle w) = 100) /\
    (forall num den, dist_branch cur = Quotient num den ->
                     num = 1 /\ den = cur /\ 0.01 < den).
Proof.
  intros w cur. unfold dist. fold cur.
  split; [reflexivity|].
  unfold dist_branch.
  destruct (Rlt_dec 0.01 cur) as [Hgt | Hle]; cbn.
  - split; [reflexivity|]. split; [lra|].
    intros num den H. injection H as <- <-. now repeat split.
  - split; [lra|]. split; [reflexivity|]. discriminate.
Qed.

(** ** Pointer handling *)

Lemma atan2_scale (k y x : R) : 0 < k -> atan2 (k * y) (k * x) = atan2 y x.
Proof.
  intros Hk. unfold atan2.
  assert (Q : x <> 0 -> k * y / (k * x) = y / x) by (intros; field; lra).
  destruct (Rlt_dec 0 x) as [Hx | Hx].
  - destruct (Rlt_dec 0 (k * x)) as [_ | Hkx]; [|nra]. rewrite Q; lra.
  - destruct (Rlt_dec 0 (k * x)) as [Hkx | _]; [nra|].
    destruct (Rlt_dec x 0) as [Hx' | Hx'].
    + destruct (Rlt_dec (k * x) 0) as [_ | Hkx]; [|nra].
      rewrite Q by lra.
      destruct (Rle_dec 0 y), (Rle_dec 0 (k * y)); (reflexivity || nra).
    + destruct (Rlt_dec (k * x) 0) as [Hkx | _]; [nra|].
      destruct (Rlt_dec 0 y), (Rlt_dec 0 (k * y)); try nra; try reflexivity.
      destruct (Rlt_dec y 0), (Rlt_dec (k * y) 0); (reflexivity || nra).
Qed.

Lemma atan2_bound (y x : R) : - PI < atan2 y x <= PI.
Proof.
  pose proof PI_RGT_0 as Hpi. unfold atan2.
  pose proof (atan_bound (y / x)) as Hb.
  destruct (Rlt_dec 0 x) as [Hx | Hx]; [lra|].
  destruct (Rlt_dec x 0) as [Hx' | Hx'].
  - destruct (Rle_dec 0 y) as [Hy | Hy].
    + assert (Hq : y / x <= 0).
      { pose proof (Rinv_lt_0_compat x Hx'). unfold Rdiv. nra. }
      assert (atan (y / x) <= 0).
      { destruct Hq as [Hq | Hq]; [|rewrite Hq, atan_0; lra].
        left. rewrite <- atan_0. now apply atan_increasing. }
      lra.
    + assert (Hq : 0 < y / x).
      { pose proof (Rinv_lt_0_compat x Hx'). unfold Rdiv. nra. }
      assert (0 < atan (y / x)).
      { rewrite <- atan_0. now apply atan_increasing. }
      lra.
  - destruct (Rlt_dec 0 y); [lra|]. destruct (Rlt_dec y 0); lra.
Qed.

Lemma hypot_factor (y x : R) :
  x <> 0 ->
  0 < sqrt (1 + (y / x)²) /\
  sqrt (x * x + y * y) = Rabs x * sqrt (1 + (y / x)²).
Proof.
  intros Hx.
  assert (H1 : 0 < 1 + (y / x)²) by (pose proof (Rle_0_sqr (y / x)); lra).
  split; [now apply sqrt_lt_R0|].
  replace (x * x + y * y) with (Rsqr x * (1 + (y / x)²))
    by (unfold Rsqr; field; exact Hx).
  rewrite sqrt_mult; [|apply Rle_0_sqr|lra].
  now rewrite sqrt_Rsqr_abs.
Qed.

(** [atan2 y x] is the polar angle of [(x, y)]. *)
Lemma atan2_polar (y x : R) :
  let r := sqrt (x * x + y * y) in
  r * cos (atan2 y x) = x /\ r * sin (atan2 y x) = y.
Proof.
  intros r. unfold atan2.
  destruct (Rlt_dec 0 x) as [Hx | Hx].
  - destruct (hypot_factor y x) as [Hs Hr]; [lra|].
    unfold r. rewrite Hr, cos_atan, sin_atan, Rabs_pos_eq by lra.
    split; field; lra.
  - destruct (Rlt_dec x 0) as [Hx' | Hx'].
    + destruct (hypot_factor y x) as [Hs Hr]; [lra|].
      unfold r. rewrite Hr, Rabs_left by lra.
      destruct (Rle_dec 0 y).
      * rewrite neg_cos, neg_sin, cos_atan, sin_atan. split; field; lra.
      * rewrite cos_minus, sin_minus, cos_PI, sin_PI, cos_atan, sin_atan.
        split; field; lra.
    + assert (x = 0) by lra. subst x. unfold r.
      replace (0 * 0 + y * y) with (Rsqr y) by (unfold Rsqr; ring).
      rewrite sqrt_Rsqr_abs.
      destruct (Rlt_dec 0 y).
      * rewrite cos_PI2, sin_PI2, Rabs_pos_eq by lra. lra.
      * destruct (Rlt_dec y 0).
        -- rewrite cos_neg, sin_neg, cos_PI2, sin_PI2, Rabs_left by lra. lra.
        -- assert (y = 0) by lra. subst y. rewrite Rabs_R0. lra.
Qed.

Lemma earthAngle_updateEarthPos (cv : Canvas) (x y : R) (w : World) :
  earthAngle (updateEarthPos cv x y w) = atan2 (y - centerY cv) (x - centerX cv).
Proof. reflexivity. Qed.

Lemma on_mousemove_dragging (cv : Canvas) (e : MouseEvent) (w : World) :
  isDragging w = true ->
  on_mousemove cv e w =
    updateEarthPos cv (clientX e - rect_left e) (clientY e - rect_top e) w.
Proof. intros H. unfold on_mousemove. now rewrite H. Qed.

Lemma on_mousemove_idle (cv : Canvas) (e : MouseEvent) (w : World) :
  isDragging w = false -> on_mousemove cv e w = w.
Proof. intros H. unfold on_mousemove. now rewrite H. Qed.

(** C6: a press, and a move while dragging, set the angle to
    [atan2 (my - cy) (mx - cx)] for the pointer [(mx, my)] and the sun centre
    [(cx, cy)]; a second pointer in the same direction from the centre, at
    [k] times the distance, gives the same angle. *)
Theorem C6_pointer_angle :
  forall (cv : Canvas) (w : World) (e e' : MouseEvent) (k : R),
    let mx := clientX e - rect_left e in
    let my := clientY e - rect_top e in
    let mx' := clientX e' - rect_left e' in
    let my' := clientY e' - rect_top e' in
    0 < k ->
    mx' - centerX cv = k * (mx - centerX cv) ->
    my' - centerY cv = k * (my - centerY cv) ->
    earthAngle (on_mousedown cv e w) = atan2 (my - centerY cv) (mx - centerX cv) /\
    (isDragging w = true ->
     earthAngle (on_mousemove cv e w) = atan2 (my - centerY cv) (mx - centerX cv)) /\
    earthAngle (on_mousedown cv e' w) = earthAngle (on_mousedown cv e w) /\
    (isDragging w = true ->
     earthAngle (on_mousemove cv e' w) = earthAngle (on_mousemove cv e w)).
Proof.
  intros cv w e e' k mx my mx' my' Hk Hx Hy.
  assert (S : atan2 (my' - centerY cv) (mx' - centerX cv) =
              atan2 (my - centerY cv) (mx - centerX cv)).
  { rewrite Hx, Hy. now apply atan2_scale. }
  split; [reflexivity|].
  split; [intros D; now rewrite on_mousemove_dragging|].
  split.
  - unfold on_mousedown. rewrite !earthAngle_updateEarthPos. exact S.
  - intros D. rewrite !on_mousemove_dragging by exact D.
    rewrite !earthAngle_updateEarthPos. exact S.
Qed.

Lemma C6_pointer_angle_witness :
  earthAngle (on_mousedown canvas0 press_far world0) =
  earthAngle (on_mousedown canvas0 press_near world0).
Proof.
  apply (C6_pointer_angle canvas0 world0 press_near press_far 2);
    unfold centerX, centerY; cbn; lra.
Defined.

(** The press of the sample scene points 45 degrees above the horizontal;
    on the canvas, where [y] grows downwards, that is the angle [-PI/4]. *)
Lemma press_near_angle :
  earthAngle (on_mousedown canvas0 press_near world0) = - (PI / 4).
Proof.
  unfold on_mousedown. rewrite earthAngle_updateEarthPos.
  unfold centerX, centerY, atan2. cbn.
  destruct (Rlt_dec 0 (510 - 10 - 800 / 2)) as [_ | H]; [|lra].
  replace ((390 - 10 - 600 * 0.8) / (510 - 10 - 800 / 2)) with (Ropp 1) by lra.
  now rewrite atan_opp, atan_1.
Qed.

(** C8: while [isDragging] is false a mouse move returns the world as it
    was (state, canvas and read-outs); while it is true the move recomputes
    the angle from the pointer. *)
Theorem C8_idle_move_ignored :
  forall (cv : Canvas) (e : MouseEvent) (w : World),
    isDragging w = false ->
    on_mousemove cv e w = w /\
    handle cv (mousemove e) w = w /\
    (forall w' : World,
        isDragging w' = true ->
        earthAngle (on_mousemove cv e w') =
          atan2 (clientY e - rect_top e - centerY cv)
                (clientX e - rect_left e - centerX cv)).
Proof.
  intros cv e w Hidle.
  split; [now apply on_mousemove_idle|].
  split; [now apply on_mousemove_idle|].
  intros w' D. now rewrite on_mousemove_dragging.
Qed.

Lemma C8_idle_move_ignored_witness :
  on_mousemove canvas0 press_near world0 = world0.
Proof.
  apply (C8_idle_move_ignored canvas0 press_near world0). reflexivity.
Defined.

(** ** Drawing *)

Lemma background_stars_app (l1 l2 : list ctx_op) :
  background_stars (l1 ++ l2) = background_stars l1 ++ background_stars l2.
Proof. apply flat_map_app. Qed.

Lemma background_stars_star_ops (cv : Canvas) (l : list nat) :
  background_stars (map (star_op cv) l) = map (star_position cv) l.
Proof.
  induction l as [|i l IH]; [reflexivity|].
  cbn [map]. change (star_op cv i :: map (star_op cv) l)
    with ([star_op cv i] ++ map (star_op cv) l).
  rewrite background_stars_app, IH. reflexivity.
Qed.

Lemma background_stars_draw_ops (cv : Canvas) (angle : R) :
  background_stars (draw_ops cv angle) = map (star_position cv) (seq 0 50).
Proof.
  unfold draw_ops. cbv zeta.
  rewrite !background_stars_app, background_stars_star_ops.
  unfold background_stars at 1 2. cbn [flat_map app].
  now rewrite app_nil_r.
Qed.

(** C9: the background rectangles issued by [draw] are the 50 positions
    [star_position i], [i = 0..49], whatever the angle: two calls of [draw]
    on any two worlds of the same canvas issue the same positions. *)
Theorem C9_background_stars_fixed :
  forall (cv : Canvas) (w1 w2 : World),
    canvasLog (draw cv w1) = canvasLog w1 ++ draw_ops cv (earthAngle w1) /\
    canvasLog (draw cv w2) = canvasLog w2 ++ draw_ops cv (earthAngle w2) /\
    background_stars (draw_ops cv (earthAngle w1)) =
      map (star_position cv) (seq 0 50) /\
    background_stars (draw_ops cv (earthAngle w1)) =
      background_stars (draw_ops cv (earthAngle w2)) /\
    (forall i : nat,
        star_position cv i =
          (option_map Rabs (js_rem (sin (INR i) * 10000) (width cv)),
           option_map Rabs (js_rem (cos (INR i) * 10000) (height cv / 2)))).
Proof.
  intros cv w1 w2.
  split; [reflexivity|]. split; [reflexivity|].
  split; [apply background_stars_draw_ops|].
  split; [now rewrite !background_stars_draw_ops|].
  reflexivity.
Qed.

(** C10: [draw] and [updateData] leave [earthAngle] and [isDragging] as
    they were ([draw] also leaves the read-outs, [updateData] the canvas);
    [updateEarthPos] changes the angle only and [mouseup] the flag only. *)
Theorem C10_render_preserves_state :
  forall (cv : Canvas) (w : World),
    (earthAngle (draw cv w) = earthAngle w /\
     isDragging (draw cv w) = isDragging w /\
     angleDisplay (draw cv w) = angleDisplay w /\
     distDisplay (draw cv w) = distDisplay w) /\
    (earthAngle (updateData w) = earthAngle w /\
     isDragging (updateData w) = isDragging w /\
     canvasLog (updateData w) = canvasLog w) /\
    (forall x y : R, isDragging (updateEarthPos cv x y w) = isDragging w) /\
    (forall e : MouseEvent, isDragging (on_mousedown cv e w) = true) /\
    (earthAngle (on_mouseup w) = earthAngle w /\
     isDragging (on_mouseup w) = false).
Proof.
  intros cv w. repeat split.
Qed.

(** ** Star size and colour *)

Import SizeSim.

Lemma T_rel_pos (T : R) : 0 < T -> 0 < T_rel T.
Proof. intros H. unfold T_rel, T_sun. apply Rdiv_lt_0_compat; lra. Qed.

Lemma R_rel_nonneg (L T : R) : 0 < T -> 0 <= R_rel L T.
Proof.
  intros HT. unfold R_rel.
  pose proof (T_rel_pos T HT) as Hrel.
  apply Rmult_le_pos; [apply sqrt_pos|].
  left. apply Rinv_0_lt_compat. nra.
Qed.

(** C3: for [L >= 0] and [T > 0] the relative radius is
    [sqrt L / (T / 5800)^2], a well-defined non-negative quotient, shown with
    two decimals; the reference star [L = 1], [T = 5800] has radius 1. *)
Theorem C3_relative_radius :
  forall L T : R,
    0 <= L -> 0 < T ->
    R_rel L T = sqrt L / (T / 5800) ^ 2 /\
    0 < (T / 5800) ^ 2 /\
    0 <= R_rel L T /\
    radiusVal (updateStar L T) = [Fixed (sqrt L / (T / 5800) ^ 2) 2; Str " x Sun"] /\
    R_rel 1 5800 = 1.
Proof.
  intros L T HL HT.
  assert (E : R_rel L T = sqrt L / (T / 5800) ^ 2).
  { unfold R_rel, T_rel, T_sun. now rewrite <- Rsqr_pow2. }
  pose proof (T_rel_pos T HT) as Hrel. unfold T_rel, T_sun in Hrel.
  split; [exact E|].
  split; [nra|].
  split; [now apply R_rel_nonneg|].
  split; [cbn [updateStar radiusVal]; now rewrite E|].
  unfold R_rel, T_rel, T_sun. rewrite sqrt_1. field.
Qed.

Lemma C3_relative_radius_witness :
  R_rel 4 11600 = sqrt 4 / (11600 / 5800) ^ 2 /\
  0 < (11600 / 5800) ^ 2 /\
  0 <= R_rel 4 11600 /\
  radiusVal (updateStar 4 11600) =
    [Fixed (sqrt 4 / (11600 / 5800) ^ 2) 2; Str " x Sun"] /\
  R_rel 1 5800 = 1.
Proof. apply (C3_relative_radius 4 11600); lra. Defined.

Lemma pxSize_clamp (L T : R) :
  let raw := 100 * R_rel L T in
  (raw < 5 -> pxSize L T = 5) /\
  (300 < raw -> pxSize L T = 300) /\
  (5 <= raw <= 300 -> pxSize L T = raw) /\
  5 <= pxSize L T <= 300.
Proof.
  intros raw. unfold pxSize. fold raw.
  destruct (Rlt_dec raw 5) as [Hlo | Hlo].
  - destruct (Rlt_dec 300 5) as [Habs | _]; [lra|].
    repeat split; intros; lra.
  - destruct (Rlt_dec 300 raw) as [Hhi | Hhi];
      repeat split; intros; lra.
Qed.

(** C4: the pixel size written to [width] and [height] is [100 * R_rel]
    clamped to [[5, 300]], for every pair of slider values. *)
Theorem C4_pixel_size_clamped :
  forall L T : R,
    let raw := 100 * R_rel L T in
    (raw < 5 -> pxSize L T = 5) /\
    (300 < raw -> pxSize L T = 300) /\
    (5 <= raw <= 300 -> pxSize L T = raw) /\
    5 <= pxSize L T <= 300 /\
    style_width (updateStar L T) = [Num (pxSize L T); Str "px"] /\
    style_height (updateStar L T) = [Num (pxSize L T); Str "px"].
Proof.
  intros L T raw.
  destruct (pxSize_clamp L T) as (Hlo & Hhi & Hmid & Hrange).
  repeat split; try assumption; apply Hrange.
Qed.

(** The two extreme inputs named in the specification. *)
Lemma pxSize_bright_cool : pxSize 100 2000 = 300.
Proof.
  assert (S : sqrt 100 = 10) by (apply sqrt_lem_1; lra).
  apply (pxSize_clamp 100 2000).
  unfold R_rel, T_rel, T_sun. rewrite S. lra.
Qed.

Lemma pxSize_dim_hot : pxSize 0.01 12000 = 5.
Proof.
  assert (S : sqrt 0.01 = 0.1) by (apply sqrt_lem_1; lra).
  apply (pxSize_clamp 0.01 12000).
  unfold R_rel, T_rel, T_sun. rewrite S. lra.
Qed.

(** C5: the colours follow the four rows of the table, each band closed at
    its lower bound and open at its upper bound; 4000, 6000 and 8000 start
    bands 2, 3 and 4; the gradient and the glow are built from them. *)
Theorem C5_colour_bands :
  forall T : R,
    (T < 4000 -> colors T = band1) /\
    (4000 <= T < 6000 -> colors T = band2) /\
    (6000 <= T < 8000 -> colors T = band3) /\
    (8000 <= T -> colors T = band4) /\
    colors 4000 = band2 /\ colors 6000 = band3 /\ colors 8000 = band4 /\
    (forall L, style_background (updateStar L T) =
      [Str "radial-gradient(circle at 30% 30%, "; Str (colorStart (colors T));
       Str ", "; Str (colorEnd (colors T)); Str ")"]) /\
    (forall L, style_boxShadow (updateStar L T) =
      [Str "0 0 "; Num (pxSize L T / 2); Str "px "; Str (glow (colors T))]).
Proof.
  intros T.
  assert (B : forall t, (t < 4000 -> colors t = band1) /\
                        (4000 <= t < 6000 -> colors t = band2) /\
                        (6000 <= t < 8000 -> colors t = band3) /\
                        (8000 <= t -> colors t = band4)).
  { intros t. unfold colors.
    destruct (Rlt_dec t 4000); [repeat split; intros; (reflexivity || lra)|].
    destruct (Rlt_dec t 6000); [repeat split; intros; (reflexivity || lra)|].
    destruct (Rlt_dec t 8000); repeat split; intros; (reflexivity || lra). }
  destruct (B T) as (B1 & B2 & B3 & B4).
  repeat split; try assumption.
  - apply (B 4000); lra.
  - apply (B 6000); lra.
  - apply (B 8000); lra.
Qed.

(** ** Event sequences *)

Lemma set_isDragging_same (w : World) : set_isDragging (isDragging w) w = w.
Proof. now destruct w. Qed.

(** Without a press, an idle scene stays as it is. *)
Lemma idle_run_unchanged (cv : Canvas) (evs : list event) (w : World) :
  isDragging w = false ->
  Forall (fun ev => match ev with mousedown _ => False | _ => True end) evs ->
  run cv evs w = w.
Proof.
  intros Hidle Hev. unfold run.
  induction Hev as [|ev evs Hhd _ IH]; [reflexivity|].
  cbn [fold_left].
  assert (E : handle cv ev w = w).
  { destruct ev as [e | e |]; [contradiction | now apply on_mousemove_idle |].
    unfold handle, on_mouseup. rewrite <- Hidle. apply set_isDragging_same. }
  now rewrite E.
Qed.

(** Press, drag, release: the angle follows the last pointer position and
    the scene is idle again. *)
Lemma press_drag_release (cv : Canvas) (e1 e2 : MouseEvent) (w : World) :
  let w' := run cv [mousedown e1; mousemove e2; mouseup] w in
  isDragging w' = false /\
  earthAngle w' = atan2 (clientY e2 - rect_top e2 - centerY cv)
                        (clientX e2 - rect_left e2 - centerX cv).
Proof. split; reflexivity. Qed.

(** ** Binary64 *)

Import SpecFloat.

Lemma SFcompare_antisym (x y : spec_float) :
  SFcompare y x = option_map CompOpp (SFcompare x y).
Proof.
  destruct x as [sx | sx | | sx mx ex], y as [sy | sy | | sy my ey]; cbn;
    try destruct sx; try destruct sy; try reflexivity;
    change (Pos.compare_cont Eq my mx) with (Pos.compare my mx);
    change (Pos.compare_cont Eq mx my) with (Pos.compare mx my);
    rewrite (Z.compare_antisym ey ex), (Pos.compare_antisym my mx);
    destruct (ey ?= ex)%Z, (my ?= mx)%positive; reflexivity.
Qed.

Ltac order_cases :=
  repeat match goal with
  | |- context [Z.compare ?a ?b] => destruct (Z.compare_spec a b)
  | |- context [Pos.compare_cont Eq ?a ?b] =>
      change (Pos.compare_cont Eq a b) with (Pos.compare a b);
      destruct (Pos.compare_spec a b)
  end.

Lemma SFleb_ltb_trans (a x b : spec_float) :
  SFleb a x = true -> SFltb x b = true -> SFltb a b = true.
Proof.
  unfold SFleb, SFltb.
  destruct a as [sa | sa | | sa ma ea], x as [sx | sx | | sx mx ex],
           b as [sb | sb | | sb mb eb]; cbn;
    try destruct sa; try destruct sx; try destruct sb; cbn;
    try discriminate; try reflexivity;
    order_cases; cbn; try discriminate; try reflexivity; intros; subst; lia.
Qed.

Section Float_order.

#[local] Set Warnings "-inexact-float".
Local Open Scope float_scope.

Lemma leb_ltb_trans (a x b : float) :
  (a <=? x) = true -> (x <? b) = true -> (a <? b) = true.
Proof. rewrite leb_spec, !ltb_spec. apply SFleb_ltb_trans. Qed.

Lemma ltb_leb (x y : float) : (x <? y) = true -> (x <=? y) = true.
Proof.
  rewrite leb_spec, ltb_spec. unfold SFleb, SFltb.
  now destruct (SFcompare (Prim2SF x) (Prim2SF y)) as [[| |]|].
Qed.

Lemma leb_not_ltb (x y : float) : (x <=? y) = true -> (y <? x) = false.
Proof.
  rewrite leb_spec, ltb_spec. unfold SFleb, SFltb.
  rewrite (SFcompare_antisym (Prim2SF x) (Prim2SF y)).
  now destruct (SFcompare (Prim2SF x) (Prim2SF y)) as [[| |]|].
Qed.

(** The clamp on floats: NaN passes through both tests. *)
Lemma b64_pxSize_clamp (L T : float) :
  let raw := 100 * Binary64.R_rel L T in
  ((raw <? 5) = true -> Binary64.pxSize L T = 5) /\
  ((300 <? raw) = true -> Binary64.pxSize L T = 300) /\
  ((raw <? 5) = false -> (300 <? raw) = false -> Binary64.pxSize L T = raw).
Proof.
  intros raw. unfold Binary64.pxSize. fold raw.
  split; [intros ->; reflexivity|].
  split.
  - intros Hhi.
    destruct (raw <? 5) eqn:Hlo; [|now rewrite Hhi].
    pose proof (leb_ltb_trans 300 raw 5 (ltb_leb _ _ Hhi) Hlo) as Habs.
    vm_compute in Habs. discriminate.
  - now intros -> ->.
Qed.

(** The colour chain on floats. *)
Lemma b64_colour_bands (T : float) :
  ((T <? 4000) = true -> Binary64.colors T = band1) /\
  ((4000 <=? T) = true -> (T <? 6000) = true -> Binary64.colors T = band2) /\
  ((6000 <=? T) = true -> (T <? 8000) = true -> Binary64.colors T = band3) /\
  ((8000 <=? T) = true -> Binary64.colors T = band4).
Proof.
  assert (Below : forall lo hi : float,
             (lo <=? T) = true -> (hi <=? lo) = true -> (T <? hi) = false).
  { intros lo hi Hlo Hhi. destruct (T <? hi) eqn:E; [|reflexivity].
    pose proof (leb_ltb_trans lo T hi Hlo E) as Hlt.
    now rewrite (leb_not_ltb hi lo Hhi) in Hlt. }
  unfold Binary64.colors. repeat split.
  - now intros ->.
  - intros Hlo Hhi. now rewrite (Below 4000 4000 Hlo eq_refl), Hhi.
  - intros Hlo Hhi.
    now rewrite (Below 6000 4000 Hlo eq_refl), (Below 6000 6000 Hlo eq_refl), Hhi.
  - intros Hlo.
    now rewrite (Below 8000 4000 Hlo eq_refl), (Below 8000 6000 Hlo eq_refl),
                (Below 8000 8000 Hlo eq_refl).
Qed.

(** The distance guard on floats. *)
Lemma b64_dist_guard_cases (cur : float) :
  ((0.01 <? cur) = true -> Binary64.dist_of cur = 1 / cur) /\
  ((cur <=? 0.01) = true -> Binary64.dist_of cur = 100).
Proof.
  unfold Binary64.dist_of. split.
  - now intros ->.
  - intros H. now rewrite (leb_not_ltb cur 0.01 H).
Qed.

(** The scenarios of the specification, evaluated on binary64. *)
Example b64_reference_star : Binary64.R_rel 1 5800 = 1.
Proof. vm_compute. reflexivity. Qed.

Example b64_pxSize_bright_cool : Binary64.pxSize 100 2000 = 300.
Proof. vm_compute. reflexivity. Qed.

Example b64_pxSize_dim_hot : Binary64.pxSize 0.01 12000 = 5.
Proof. vm_compute. reflexivity. Qed.

Example b64_colour_boundaries :
  Binary64.colors 3999 = band1 /\ Binary64.colors 4000 = band2 /\
  Binary64.colors 5999 = band2 /\ Binary64.colors 6000 = band3 /\
  Binary64.colors 7999 = band3 /\ Binary64.colors 8000 = band4.
Proof. vm_compute. repeat split. Qed.

Example b64_dist_guard :
  Binary64.dist_of 0.76 = 1 / 0.76 /\
  Binary64.dist_of 0.01 = 100 /\
  Binary64.dist_of 0 = 100.
Proof. vm_compute. repeat split. Qed.

End Float_order.

(** * Further properties of the parallax scene *)

(** ** Invariants of the event loop *)

Lemma run_app (cv : Canvas) (l1 l2 : list event) (w : World) :
  run cv (l1 ++ l2) w = run cv l2 (run cv l1 w).
Proof. unfold run. apply fold_left_app. Qed.

Lemma run_invariant (cv : Canvas) (P : World -> Prop) :
  (forall ev w, P w -> P (handle cv ev w)) ->
  forall evs w, P w -> P (run cv evs w).
Proof.
  intros Hstep evs. unfold run.
  induction evs as [|ev evs IH]; intros w Hw; [exact Hw|].
  cbn [fold_left]. apply IH, Hstep, Hw.
Qed.

Lemma handle_cases (cv : Canvas) (ev : event) (w : World) :
  handle cv ev w = w \/
  handle cv ev w = set_isDragging false w \/
  exists x y b, handle cv ev w = updateEarthPos cv x y (set_isDragging b w).
Proof.
  destruct ev as [e | e |].
  - right. right. now exists (clientX e - rect_left e), (clientY e - rect_top e), true.
  - cbn. unfold on_mousemove. destruct (isDragging w) eqn:D; cbn.
    + right. right.
      exists (clientX e - rect_left e), (clientY e - rect_top e), true.
      now rewrite <- D, set_isDragging_same.
    + now left.
  - right. now left.
Qed.

(** X1: in every state reached from [initParallaxSim] the orbital angle
    lies in [(-PI, PI]]. *)
Theorem X1_angle_in_range :
  forall (cv : Canvas) (evs : list event) (angle0 dist0 : text),
    - PI < earthAngle (run cv evs (initParallaxSim cv angle0 dist0)) <= PI.
Proof.
  intros cv evs angle0 dist0.
  apply (run_invariant cv (fun w => - PI < earthAngle w <= PI)).
  - intros ev w Hw.
    destruct (handle_cases cv ev w) as [E | [E | (x & y & b & E)]]; rewrite E.
    + exact Hw.
    + exact Hw.
    + rewrite earthAngle_updateEarthPos. apply atan2_bound.
  - cbn. pose proof PI_RGT_0. lra.
Qed.

(** X2: in every state reached from [initParallaxSim] the last calls on
    the context are those of a [draw] for the current angle: the picture is
    never behind the state. *)
Theorem X2_canvas_shows_current_angle :
  forall (cv : Canvas) (evs : list event) (angle0 dist0 : text),
    let w := run cv evs (initParallaxSim cv angle0 dist0) in
    exists before, canvasLog w = before ++ draw_ops cv (earthAngle w).
Proof.
  intros cv evs angle0 dist0.
  apply (run_invariant cv
           (fun w => exists before,
                canvasLog w = before ++ draw_ops cv (earthAngle w))).
  - intros ev w [before Hw].
    destruct (handle_cases cv ev w) as [E | [E | (x & y & b & E)]]; rewrite E.
    + now exists before.
    + now exists before.
    + now exists (canvasLog w).
  - now exists [].
Qed.

(** X3: [initParallaxSim] draws but does not call [updateData]: until the
    first press the two read-outs keep the text the page had, whatever
    moves and releases arrive. *)
Theorem X3_readouts_untouched_before_first_press :
  forall (cv : Canvas) (evs : list event) (angle0 dist0 : text),
    Forall not_press evs ->
    let w := run cv evs (initParallaxSim cv angle0 dist0) in
    angleDisplay w = angle0 /\ distDisplay w = dist0 /\ earthAngle w = 0.
Proof.
  intros cv evs angle0 dist0 Hev w. subst w.
  rewrite idle_run_unchanged; [now repeat split | reflexivity | exact Hev].
Qed.

Lemma X3_readouts_untouched_before_first_press_witness :
  let w := run canvas0 [mousemove press_near; mouseup; mousemove press_far]
               (initParallaxSim canvas0 [Str "0.000"] [Str "-- pc"]) in
  angleDisplay w = [Str "0.000"] /\ distDisplay w = [Str "-- pc"] /\
  earthAngle w = 0.
Proof.
  apply (X3_readouts_untouched_before_first_press canvas0
           [mousemove press_near; mouseup; mousemove press_far]).
  repeat constructor.
Defined.

Lemma readouts_current_step (cv : Canvas) (ev : event) (w : World) :
  readouts_current w -> readouts_current (handle cv ev w).
Proof.
  intros Hw.
  destruct (handle_cases cv ev w) as [E | [E | (x & y & b & E)]]; rewrite E.
  - exact Hw.
  - exact Hw.
  - split; reflexivity.
Qed.

(** X4: once a press has happened, both read-outs show the parallax angle
    and the distance of the current orbital angle, in every later state. *)
Theorem X4_readouts_current_after_press :
  forall (cv : Canvas) (evs : list event) (e : MouseEvent) (w0 : World),
    In (mousedown e) evs ->
    let w := run cv evs w0 in
    angleDisplay w = [Fixed (currentAngle (earthAngle w)) 3; Str dquote] /\
    distDisplay w = [Fixed (dist (earthAngle w)) 2; Str " pc"].
Proof.
  intros cv evs e w0 Hin w. subst w.
  apply in_split in Hin as (l1 & l2 & ->).
  rewrite run_app.
  change (mousedown e :: l2) with ([mousedown e] ++ l2). rewrite run_app.
  apply (run_invariant cv readouts_current).
  - apply readouts_current_step.
  - split; reflexivity.
Qed.

Lemma X4_readouts_current_after_press_witness :
  let w := run canvas0 [mousemove press_far; mousedown press_near; mouseup] world0 in
  angleDisplay w = [Fixed (currentAngle (earthAngle w)) 3; Str dquote] /\
  distDisplay w = [Fixed (dist (earthAngle w)) 2; Str " pc"].
Proof.
  apply (X4_readouts_current_after_press canvas0
           [mousemove press_far; mousedown press_near; mouseup] press_near world0).
  right. left. reflexivity.
Defined.

Lemma last_cons_default {A : Type} (l : list A) (x d : A) :
  last (x :: l) d = last l x.
Proof.
  revert x d. induction l as [|y l IH]; intros x d; [reflexivity|].
  change (last (x :: y :: l) d) with (last (y :: l) d).
  now rewrite (IH y d), (IH y x).
Qed.

Lemma run_moves_dragging (cv : Canvas) (es : list MouseEvent) (e : MouseEvent)
      (w : World) :
  isDragging w = true ->
  earthAngle w = atan2 (clientY e - rect_top e - centerY cv)
                       (clientX e - rect_left e - centerX cv) ->
  let w' := run cv (map mousemove es) w in
  let e' := last es e in
  isDragging w' = true /\
  earthAngle w' = atan2 (clientY e' - rect_top e' - centerY cv)
                        (clientX e' - rect_left e' - centerX cv).
Proof.
  revert e w. induction es as [|e1 es IH]; intros e w D A; [now split|].
  cbn [map]. change (mousemove e1 :: map mousemove es)
    with ([mousemove e1] ++ map mousemove es).
  cbv zeta. rewrite run_app.
  rewrite last_cons_default. apply IH.
  - cbn. now rewrite on_mousemove_dragging.
  - cbn. now rewrite on_mousemove_dragging.
Qed.

(** X5: a drag has no memory: after a press followed by any number of
    moves the scene is still dragging and the angle is that of the last
    pointer position alone. *)
Theorem X5_drag_follows_last_pointer :
  forall (cv : Canvas) (e : MouseEvent) (es : list MouseEvent) (w : World),
    let w' := run cv (mousedown e :: map mousemove es) w in
    let e' := last es e in
    isDragging w' = true /\
    earthAngle w' = atan2 (clientY e' - rect_top e' - centerY cv)
                          (clientX e' - rect_left e' - centerX cv).
Proof.
  intros cv e es w.
  change (mousedown e :: map mousemove es)
    with ([mousedown e] ++ map mousemove es).
  cbv zeta. rewrite run_app.
  apply (run_moves_dragging cv es e); reflexivity.
Qed.

(** ** Geometry of one frame *)

Ltac in_frame :=
  unfold draw_ops; cbv zeta;
  apply in_or_app; right; apply in_or_app; right;
  repeat first [left; reflexivity | right].

(** X6: in every frame the Earth disc is centred on the orbit ellipse that
    the same frame strokes (semi-axes [orbitRadius] and [0.3 * orbitRadius]
    around the sun). *)
Theorem X6_earth_on_drawn_orbit :
  forall (cv : Canvas) (a : R),
    exists ex ey : R,
      In (arc ex ey 8 0 (PI * 2)) (draw_ops cv a) /\
      In (ellipse (centerX cv) (centerY cv) orbitRadius (orbitRadius * 0.3)
                  0 0 (PI * 2)) (draw_ops cv a) /\
      ((ex - centerX cv) / orbitRadius)² +
      ((ey - centerY cv) / (orbitRadius * 0.3))² = 1.
Proof.
  intros cv a.
  exists (centerX cv + cos a * orbitRadius),
         (centerY cv + sin a * (orbitRadius * 0.3)).
  split; [in_frame|]. split; [in_frame|].
  replace ((centerX cv + cos a * orbitRadius - centerX cv) / orbitRadius)
    with (cos a) by (unfold orbitRadius; lra).
  replace ((centerY cv + sin a * (orbitRadius * 0.3) - centerY cv)
           / (orbitRadius * 0.3))
    with (sin a) by (unfold orbitRadius; lra).
  rewrite Rplus_comm. apply sin2_cos2.
Qed.

(** X7: the target star is drawn 150 above the sun in every frame, the
    dashed line of sight runs from the Earth to it, and the apparent
    position is the point one and a half times as far beyond the star:
    [(cx - 150 cos a, cy - 375 - 45 sin a)], labelled 10 to its right.  Its
    horizontal offset is opposite to the Earth's. *)
Theorem X7_apparent_position :
  forall (cv : Canvas) (a : R),
    let ex := centerX cv + cos a * orbitRadius in
    let ey := centerY cv + sin a * (orbitRadius * 0.3) in
    let starX := centerX cv in
    let starY := centerY cv - 150 in
    exists px py : R,
      In (arc starX starY 5 0 (PI * 2)) (draw_ops cv a) /\
      In (moveTo ex ey) (draw_ops cv a) /\
      In (lineTo starX starY) (draw_ops cv a) /\
      In (arc px py 4 0 (PI * 2)) (draw_ops cv a) /\
      In (fillText "Apparent Position" (px + 10) py) (draw_ops cv a) /\
      px - starX = 1.5 * (starX - ex) /\
      py - starY = 1.5 * (starY - ey) /\
      px = centerX cv - 150 * cos a /\
      py = centerY cv - 375 - 45 * sin a.
Proof.
  intros cv a ex ey starX starY.
  exists (ex + (starX - ex) * 2.5), (ey + (starY - ey) * 2.5).
  split; [in_frame|]. split; [in_frame|]. split; [in_frame|].
  split; [in_frame|]. split; [in_frame|].
  subst ex ey starX starY. unfold orbitRadius. repeat split; lra.
Qed.

(** ** From the pointer to the read-outs *)

Lemma hypot_pos (y x : R) : x <> 0 \/ y <> 0 -> 0 < sqrt (x * x + y * y).
Proof. intros H. apply sqrt_lt_R0. nra. Qed.

Lemma cos_atan2 (y x : R) :
  x <> 0 \/ y <> 0 -> cos (atan2 y x) = x / sqrt (x * x + y * y).
Proof.
  intros H. pose proof (hypot_pos y x H) as Hr.
  destruct (atan2_polar y x) as [Hc _]. cbv zeta in Hc.
  apply (Rmult_eq_reg_l (sqrt (x * x + y * y))); [|lra].
  rewrite Hc. field. lra.
Qed.

Lemma currentAngle_atan2 (dy dx : R) :
  dx <> 0 \/ dy <> 0 ->
  currentAngle (atan2 dy dx) = maxAngle * Rabs dx / sqrt (dx * dx + dy * dy).
Proof.
  intros H. pose proof (hypot_pos dy dx H) as Hr.
  rewrite currentAngle_cos, (cos_atan2 dy dx H).
  unfold Rdiv at 1. rewrite Rabs_mult, Rabs_inv, (Rabs_pos_eq (sqrt _)) by lra.
  field. lra.
Qed.

(** X8: a press anywhere but on the sun centre shows the parallax angle
    [maxAngle * |dx| / sqrt (dx^2 + dy^2)], where [(dx, dy)] is the offset
    of the pointer from the sun centre: the reading depends on the
    direction of the pointer only, through its horizontal share. *)
Theorem X8_reading_from_pointer :
  forall (cv : Canvas) (e : MouseEvent) (w : World),
    let dx := clientX e - rect_left e - centerX cv in
    let dy := clientY e - rect_top e - centerY cv in
    dx <> 0 \/ dy <> 0 ->
    angleDisplay (on_mousedown cv e w) =
      [Fixed (maxAngle * Rabs dx / sqrt (dx * dx + dy * dy)) 3; Str dquote].
Proof.
  intros cv e w dx dy H.
  unfold on_mousedown. cbn [updateEarthPos updateData angleDisplay].
  cbn [draw set_earthAngle earthAngle].
  fold dx dy. now rewrite (currentAngle_atan2 dy dx H).
Qed.

Lemma X8_reading_from_pointer_witness :
  angleDisplay (on_mousedown canvas0 press_near world0) =
    [Fixed (maxAngle * Rabs (510 - 10 - centerX canvas0) /
            sqrt ((510 - 10 - centerX canvas0) * (510 - 10 - centerX canvas0) +
                  (390 - 10 - centerY canvas0) * (390 - 10 - centerY canvas0))) 3;
     Str dquote].
Proof.
  apply (X8_reading_from_pointer canvas0 press_near world0).
  left. unfold centerX. cbn. lra.
Defined.

(** X9: presses on the vertical line through the sun.  Exactly on the sun
    centre the angle becomes 0 and the reading is the full [maxAngle];
    anywhere else on the line the reading is 0 and the distance read-out is
    the constant 100. *)
Theorem X9_press_on_sun_axis :
  forall (cv : Canvas) (e : MouseEvent) (w : World),
    let dy := clientY e - rect_top e - centerY cv in
    let w' := on_mousedown cv e w in
    clientX e - rect_left e - centerX cv = 0 ->
    (dy = 0 ->
     earthAngle w' = 0 /\ currentAngle (earthAngle w') = maxAngle) /\
    (dy <> 0 ->
     currentAngle (earthAngle w') = 0 /\
     distDisplay w' = [Fixed 100 2; Str " pc"]).
Proof.
  intros cv e w dy w' Hx.
  assert (A : earthAngle w' =
              atan2 dy (clientX e - rect_left e - centerX cv)) by reflexivity.
  rewrite Hx in A. unfold atan2 in A.
  destruct (Rlt_dec 0 0) as [H | _]; [lra|].
  destruct (Rlt_dec 0 0) as [H | _]; [lra|].
  split.
  - intros Hy. rewrite Hy in A.
    destruct (Rlt_dec 0 0) as [H | _]; [lra|].
    rewrite A. split; [reflexivity | apply scenario_angle_0].
  - intros Hy.
    assert (C : currentAngle (earthAngle w') = 0).
    { rewrite currentAngle_cos, A.
      destruct (Rlt_dec 0 dy); [|destruct (Rlt_dec dy 0); [|lra]].
      - rewrite cos_PI2, Rabs_R0. ring.
      - rewrite cos_neg, cos_PI2, Rabs_R0. ring. }
    split; [exact C|].
    change (distDisplay w') with [Fixed (dist (earthAngle w')) 2; Str " pc"].
    unfold dist, dist_branch. rewrite C.
    destruct (Rlt_dec 0.01 0) as [H | _]; [lra | reflexivity].
Qed.

Lemma X9_press_on_sun_axis_witness :
  let e := {| clientX := 410; clientY := 100; rect_left := 10; rect_top := 10 |} in
  let w' := on_mousedown canvas0 e world0 in
  (100 - 10 - centerY canvas0 = 0 ->
   earthAngle w' = 0 /\ currentAngle (earthAngle w') = maxAngle) /\
  (100 - 10 - centerY canvas0 <> 0 ->
   currentAngle (earthAngle w') = 0 /\
   distDisplay w' = [Fixed 100 2; Str " pc"]).
Proof.
  apply (X9_press_on_sun_axis canvas0
           {| clientX := 410; clientY := 100; rect_left := 10; rect_top := 10 |}
           world0).
  unfold centerX. cbn. lra.
Defined.

(** ** The distance read-out *)

Lemma dist_above (a : R) :
  0.01 < currentAngle a -> dist a = / currentAngle a.
Proof.
  intros H. unfold dist, dist_branch.
  destruct (Rlt_dec 0.01 (currentAngle a)) as [_ | N]; [|contradiction].
  cbn. unfold Rdiv. ring.
Qed.

Lemma dist_below (a : R) : currentAngle a <= 0.01 -> dist a = 100.
Proof.
  intros H. unfold dist, dist_branch.
  destruct (Rlt_dec 0.01 (currentAngle a)) as [N | _]; [lra | reflexivity].
Qed.

Lemma dist_bounds (a : R) : 1 / maxAngle <= dist a <= 100.
Proof.
  pose proof (currentAngle_range a) as [_ Hmax]. unfold maxAngle in *.
  destruct (Rlt_dec 0.01 (currentAngle a)) as [Hgt | Hle].
  - rewrite (dist_above a Hgt).
    assert (Hpos : 0 < / currentAngle a) by (apply Rinv_0_lt_compat; lra).
    assert (Hinv : currentAngle a * / currentAngle a = 1) by (apply Rinv_r; lra).
    split; nra.
  - rewrite (dist_below a) by lra. lra.
Qed.

(** X10: the distance shown is never below [1 / maxAngle] and never above
    100, and it is 100 exactly when the parallax angle is at most 0.01. *)
Theorem X10_distance_bounds :
  forall a : R,
    1 / maxAngle <= dist a <= 100 /\
    (dist a = 100 <-> currentAngle a <= 0.01).
Proof.
  intros a. split; [apply dist_bounds|].
  split.
  - intros H. destruct (Rlt_dec 0.01 (currentAngle a)) as [Hgt | Hle]; [|lra].
    rewrite (dist_above a Hgt) in H.
    assert (Hinv : currentAngle a * / currentAngle a = 1) by (apply Rinv_r; lra).
    rewrite H in Hinv. lra.
  - apply dist_below.
Qed.

(** X11: a larger parallax angle never shows a larger distance, across the
    0.01 threshold as well; above the threshold the distance falls
    strictly. *)
Theorem X11_distance_antitone :
  forall a b : R,
    currentAngle a <= currentAngle b ->
    dist b <= dist a /\
    (0.01 < currentAngle a < currentAngle b -> dist b < dist a).
Proof.
  intros a b Hab.
  destruct (Rlt_dec 0.01 (currentAngle a)) as [Ha | Ha].
  - assert (Hb : 0.01 < currentAngle b) by lra.
    rewrite (dist_above a Ha), (dist_above b Hb). split.
    + apply Rinv_le_contravar; lra.
    + intros [_ Hlt]. apply Rinv_0_lt_contravar; lra.
  - rewrite (dist_below a) by lra. split; [|lra].
    apply dist_bounds.
Qed.

Lemma X11_distance_antitone_witness :
  dist 0 <= dist (PI / 2) /\
  (0.01 < currentAngle (PI / 2) < currentAngle 0 -> dist 0 < dist (PI / 2)).
Proof.
  apply (X11_distance_antitone (PI / 2) 0).
  destruct scenario_angle_0 as [E0 _], scenario_angle_PI2 as [E1 _].
  rewrite E0, E1. unfold maxAngle. lra.
Defined.

(** ** Pressing on the drawn Earth *)

(** X12: the angle is taken from the unsquashed direction to the pointer,
    while the Earth is drawn on the squashed ellipse.  So a press exactly on
    the centre of the drawn Earth does not keep the angle: for an angle [a]
    in the first quadrant the new angle is [atan (0.3 * tan a)], strictly
    between 0 and [a]. *)
Theorem X12_press_on_earth_moves_it :
  forall (cv : Canvas) (w : World),
    let a := earthAngle w in
    let ex := centerX cv + cos a * orbitRadius in
    let ey := centerY cv + sin a * (orbitRadius * 0.3) in
    let a' := earthAngle (updateEarthPos cv ex ey w) in
    0 < a < PI / 2 ->
    In (arc ex ey 8 0 (PI * 2)) (draw_ops cv a) /\
    a' = atan (0.3 * tan a) /\
    0 < a' < a.
Proof.
  intros cv w a ex ey a' [Ha0 Ha1].
  assert (Hc : 0 < cos a) by (apply cos_gt_0; lra).
  assert (Ht : 0 < tan a) by (now apply tan_gt_0).
  assert (E : a' = atan (0.3 * tan a)).
  { subst a'. rewrite earthAngle_updateEarthPos. unfold atan2.
    destruct (Rlt_dec 0 (ex - centerX cv)) as [_ | N].
    - f_equal. subst ex ey. unfold tan, orbitRadius. field. lra.
    - exfalso. apply N. subst ex. unfold orbitRadius. nra. }
  split; [in_frame|]. split; [exact E|].
  rewrite E. split.
  - rewrite <- atan_0. apply atan_increasing. lra.
  - rewrite <- (atan_tan a) at 2 by lra. apply atan_increasing. lra.
Qed.

Lemma X12_press_on_earth_moves_it_witness :
  let w := set_earthAngle (PI / 4) world0 in
  let a := earthAngle w in
  let ex := centerX canvas0 + cos a * orbitRadius in
  let ey := centerY canvas0 + sin a * (orbitRadius * 0.3) in
  let a' := earthAngle (updateEarthPos canvas0 ex ey w) in
  In (arc ex ey 8 0 (PI * 2)) (draw_ops canvas0 a) /\
  a' = atan (0.3 * tan a) /\
  0 < a' < a.
Proof.
  apply (X12_press_on_earth_moves_it canvas0 (set_earthAngle (PI / 4) world0)).
  cbn. pose proof PI_RGT_0. lra.
Defined.

(** ** Background stars *)

Lemma Rtrunc_error (q : R) : Rabs (q - Rtrunc q) < 1.
Proof.
  unfold Rtrunc. destruct (Rle_dec 0 q) as [Hq | Hq].
  - destruct (base_Int_part q) as [Hlo Hhi]. apply Rabs_def1; lra.
  - destruct (base_Int_part (- q)) as [Hlo Hhi]. apply Rabs_def1; lra.
Qed.

Lemma js_rem_bound (x y : R) :
  y <> 0 -> exists r, js_rem x y = Some r /\ Rabs r < Rabs y.
Proof.
  intros Hy. unfold js_rem.
  destruct (Req_dec_T y 0) as [E | _]; [contradiction|].
  eexists. split; [reflexivity|].
  replace (x - y * Rtrunc (x / y)) with (y * (x / y - Rtrunc (x / y)))
    by (field; exact Hy).
  rewrite Rabs_mult.
  pose proof (Rtrunc_error (x / y)) as Ht.
  pose proof (Rabs_pos_lt y Hy) as Hp.
  pose proof (Rabs_pos (x / y - Rtrunc (x / y))).
  nra.
Qed.

(** X13: on a canvas of positive width and height each of the 50
    background stars has a position inside the upper half of the canvas:
    [0 <= x < width] and [0 <= y < height / 2]. *)
Theorem X13_stars_in_upper_half :
  forall (cv : Canvas) (a : R) (p : option R * option R),
    0 < width cv -> 0 < height cv ->
    In p (background_stars (draw_ops cv a)) ->
    exists x y : R,
      p = (Some x, Some y) /\
      0 <= x < width cv /\ 0 <= y < height cv / 2.
Proof.
  intros cv a p Hw Hh Hin.
  rewrite background_stars_draw_ops in Hin.
  apply in_map_iff in Hin as (i & <- & _).
  unfold star_position, star_rx, star_ry.
  destruct (js_rem_bound (sin (INR i) * 10000) (width cv)) as (x & -> & Hx);
    [lra|].
  destruct (js_rem_bound (cos (INR i) * 10000) (height cv / 2)) as (y & -> & Hy);
    [lra|].
  exists (Rabs x), (Rabs y). split; [reflexivity|].
  rewrite (Rabs_pos_eq (width cv)) in Hx by lra.
  rewrite (Rabs_pos_eq (height cv / 2)) in Hy by lra.
  pose proof (Rabs_pos x). pose proof (Rabs_pos y). lra.
Qed.

Lemma X13_stars_in_upper_half_witness :
  exists x y : R,
    star_position canvas0 7 = (Some x, Some y) /\
    0 <= x < width canvas0 /\ 0 <= y < height canvas0 / 2.
Proof.
  apply (X13_stars_in_upper_half canvas0 0 (star_position canvas0 7)).
  - cbn. lra.
  - cbn. lra.
  - rewrite background_stars_draw_ops. apply in_map, in_seq. lia.
Defined.

(** X14: on a canvas of width 0 the [x] of every background star is NaN,
    and on a canvas of height 0 its [y] is: [%] by zero. *)
Theorem X14_stars_on_empty_canvas :
  forall (cv : Canvas) (a : R) (p : option R * option R),
    In p (background_stars (draw_ops cv a)) ->
    (width cv = 0 -> fst p = None) /\
    (height cv = 0 -> snd p = None).
Proof.
  intros cv a p Hin.
  rewrite background_stars_draw_ops in Hin.
  apply in_map_iff in Hin as (i & <- & _).
  unfold star_position, star_rx, star_ry, js_rem. cbn [fst snd]. split.
  - intros E. destruct (Req_dec_T (width cv) 0); [reflexivity | contradiction].
  - intros E. destruct (Req_dec_T (height cv / 2) 0) as [_ | N];
      [reflexivity | exfalso; apply N; lra].
Qed.

Lemma X14_stars_on_empty_canvas_witness :
  let cv := {| width := 0; height := 0 |} in
  (width cv = 0 -> fst (star_position cv 3) = None) /\
  (height cv = 0 -> snd (star_position cv 3) = None).
Proof.
  apply (X14_stars_on_empty_canvas {| width := 0; height := 0 |} 0
           (star_position {| width := 0; height := 0 |} 3)).
  rewrite background_stars_draw_ops. apply in_map, in_seq. lia.
Defined.

(** * Further properties of the size simulation *)

(** X15: scaling laws of the relative radius.  Multiplying the luminosity
    by [k] multiplies the radius by [sqrt k]; multiplying the temperature
    by [k] divides it by [k^2].  Doubling the temperature quarters it. *)
Theorem X15_radius_scaling :
  forall L T k : R,
    0 <= L -> 0 < T -> 0 < k ->
    R_rel (k * L) T = sqrt k * R_rel L T /\
    R_rel L (k * T) = R_rel L T / (k * k) /\
    R_rel L (2 * T) = 0.25 * R_rel L T.
Proof.
  intros L T k HL HT Hk.
  pose proof (T_rel_pos T HT) as Hrel. unfold T_rel, T_sun in Hrel.
  unfold R_rel, T_rel, T_sun.
  split; [|split].
  - rewrite sqrt_mult by lra. field. lra.
  - field. lra.
  - replace 0.25 with (/ 4) by lra. field. lra.
Qed.

Lemma X15_radius_scaling_witness :
  R_rel (2 * 1) 5800 = sqrt 2 * R_rel 1 5800 /\
  R_rel 1 (2 * 5800) = R_rel 1 5800 / (2 * 2) /\
  R_rel 1 (2 * 5800) = 0.25 * R_rel 1 5800.
Proof. apply (X15_radius_scaling 1 5800 2); lra. Defined.

Lemma R_rel_mono_L (L1 L2 T : R) :
  0 <= L1 <= L2 -> 0 < T -> R_rel L1 T <= R_rel L2 T.
Proof.
  intros HL HT. pose proof (T_rel_pos T HT) as Hrel.
  unfold R_rel. apply Rmult_le_compat_r.
  - left. apply Rinv_0_lt_compat. nra.
  - apply sqrt_le_1; lra.
Qed.

Lemma R_rel_anti_T (L T1 T2 : R) :
  0 < T1 <= T2 -> R_rel L T2 <= R_rel L T1.
Proof.
  intros [H1 H12].
  pose proof (T_rel_pos T1 H1) as Hr1.
  assert (Hr12 : T_rel T1 <= T_rel T2) by (unfold T_rel, T_sun; lra).
  unfold R_rel. apply Rmult_le_compat_l; [apply sqrt_pos|].
  apply Rinv_le_contravar; nra.
Qed.

Lemma clamp_mono (L1 T1 L2 T2 : R) :
  R_rel L1 T1 <= R_rel L2 T2 -> pxSize L1 T1 <= pxSize L2 T2.
Proof.
  intros H. unfold pxSize.
  destruct (Rlt_dec (100 * R_rel L1 T1) 5), (Rlt_dec (100 * R_rel L2 T2) 5);
    repeat match goal with
           | |- context [Rlt_dec ?x ?y] => destruct (Rlt_dec x y)
           end; lra.
Qed.

(** X16: a brighter star is never drawn smaller and a hotter star never
    larger: the relative radius and the pixel size grow with the luminosity
    and shrink with the temperature. *)
Theorem X16_size_monotone :
  forall L1 L2 T1 T2 : R,
    0 <= L1 <= L2 -> 0 < T1 <= T2 ->
    R_rel L1 T2 <= R_rel L2 T1 /\
    pxSize L1 T2 <= pxSize L2 T1.
Proof.
  intros L1 L2 T1 T2 HL HT.
  assert (H : R_rel L1 T2 <= R_rel L2 T1).
  { apply Rle_trans with (R_rel L1 T1).
    - now apply R_rel_anti_T.
    - apply R_rel_mono_L; lra. }
  split; [exact H | now apply clamp_mono].
Qed.

Lemma X16_size_monotone_witness :
  R_rel 1 6000 <= R_rel 4 5000 /\ pxSize 1 6000 <= pxSize 4 5000.
Proof. apply (X16_size_monotone 1 4 5000 6000); lra. Defined.

(** X17: the clamp is tight.  The pixel size is 5 exactly when
    [100 * R_rel <= 5] and 300 exactly when [100 * R_rel >= 300]; the
    element is as high as it is wide, and the glow radius, half the size,
    stays within [[2.5, 150]]. *)
Theorem X17_clamp_thresholds :
  forall L T : R,
    (pxSize L T = 5 <-> 100 * R_rel L T <= 5) /\
    (pxSize L T = 300 <-> 300 <= 100 * R_rel L T) /\
    style_width (updateStar L T) = style_height (updateStar L T) /\
    (exists g, style_boxShadow (updateStar L T) =
                 [Str "0 0 "; Num g; Str "px "; Str (glow (colors T))] /\
               2.5 <= g <= 150).
Proof.
  intros L T.
  destruct (pxSize_clamp L T) as (Hlo & Hhi & Hmid & Hr). cbv zeta in *.
  repeat split.
  - intros E. destruct (Rlt_dec 300 (100 * R_rel L T)) as [H | H].
    + rewrite (Hhi H) in E. lra.
    + destruct (Rlt_dec (100 * R_rel L T) 5) as [H' | H']; [lra|].
      rewrite Hmid in E; lra.
  - intros [H | H]; [now apply Hlo | rewrite Hmid; lra].
  - intros E. destruct (Rlt_dec (100 * R_rel L T) 5) as [H | H].
    + rewrite (Hlo H) in E. lra.
    + destruct (Rlt_dec 300 (100 * R_rel L T)) as [H' | H']; [lra|].
      rewrite Hmid in E; lra.
  - intros [H | H]; [now apply Hhi | rewrite Hmid; lra].
  - exists (pxSize L T / 2). split; [reflexivity | lra].
Qed.

Lemma colors_cases (T : R) :
  (T < 4000 /\ colors T = band1) \/
  (4000 <= T < 6000 /\ colors T = band2) \/
  (6000 <= T < 8000 /\ colors T = band3) \/
  (8000 <= T /\ colors T = band4).
Proof.
  unfold colors.
  destruct (Rlt_dec T 4000); [left; now split|].
  destruct (Rlt_dec T 6000); [right; left; split; [lra | reflexivity]|].
  destruct (Rlt_dec T 8000); [right; right; left; split; [lra | reflexivity]|].
  right; right; right. split; [lra | reflexivity].
Qed.

(** X18: the colour tells the band: the four colour triples differ, so each
    one is used for its temperature range and for no other temperature. *)
Theorem X18_colour_identifies_band :
  forall T : R,
    (colors T = band1 <-> T < 4000) /\
    (colors T = band2 <-> 4000 <= T < 6000) /\
    (colors T = band3 <-> 6000 <= T < 8000) /\
    (colors T = band4 <-> 8000 <= T).
Proof.
  intros T.
  destruct (colors_cases T) as [[H E] | [[H E] | [[H E] | [H E]]]];
    rewrite E; repeat split; intros; try reflexivity; try lra;
    discriminate.
Qed.

(** * The context across frames *)

Import Canvas2D.

Lemma exec_app (l1 l2 : list ctx_op) (s : ctx_state) :
  exec (l1 ++ l2) s = exec l2 (exec l1 s).
Proof. revert s. induction l1 as [|op l1 IH]; intros s; [reflexivity | apply IH]. Qed.

Lemma paints_app (l1 l2 : list ctx_op) (s : ctx_state) :
  paints (l1 ++ l2) s = paints l1 s ++ paints l2 (exec l1 s).
Proof.
  revert s. induction l1 as [|op l1 IH]; intros s; [reflexivity|].
  cbn [app paints exec]. now rewrite IH, app_assoc.
Qed.

Lemma exec_stars (cv : Canvas) (l : list nat) (s : ctx_state) :
  exec (map (star_op cv) l) s = s.
Proof. induction l as [|i l IH]; [reflexivity | exact IH]. Qed.

Lemma paints_stars (cv : Canvas) (l : list nat) (s : ctx_state) :
  paints (map (star_op cv) l) s =
  map (fun i => PFillRect (fst (star_position cv i)) (snd (star_position cv i))
                          1 1 (st_fillStyle s) (shadow s)) l.
Proof.
  induction l as [|i l IH]; [reflexivity|].
  cbn [map paints]. now rewrite <- IH.
Qed.

Lemma shadow_of_0 (color : string) : shadow_of 0 color = None.
Proof. unfold shadow_of. destruct (Req_dec_T 0 0); [reflexivity | contradiction]. Qed.

Lemma exec_frame (cv : Canvas) (a : R) (s : ctx_state) :
  st_shadowBlur (exec (draw_ops cv a) s) = 0 /\
  st_lineDash (exec (draw_ops cv a) s) = [].
Proof.
  unfold draw_ops. cbv zeta. rewrite !exec_app, exec_stars. split; reflexivity.
Qed.

Lemma paints_frame (cv : Canvas) (a : R) (s : ctx_state) :
  st_shadowBlur s = 0 -> st_lineDash s = [] ->
  paints (draw_ops cv a) s = paints (draw_ops cv a) default_state.
Proof.
  destruct s as [f st b c d fn pth]. cbn [st_shadowBlur st_lineDash].
  intros -> ->.
  unfold draw_ops. cbv zeta.
  rewrite !paints_app, ?exec_app, !exec_stars, !paints_stars.
  unfold shadow. cbn -[shadow_of star_position PI seq map].
  rewrite !shadow_of_0. reflexivity.
Qed.

Lemma frames_paint_alike (cv : Canvas) (angles : list R) (s : ctx_state) :
  st_shadowBlur s = 0 -> st_lineDash s = [] ->
  paints (List.concat (map (draw_ops cv) angles)) s =
    List.concat (map (fun a => paints (draw_ops cv a) default_state) angles) /\
  st_shadowBlur (exec (List.concat (map (draw_ops cv) angles)) s) = 0 /\
  st_lineDash (exec (List.concat (map (draw_ops cv) angles)) s) = [].
Proof.
  revert s. induction angles as [|a angles IH]; intros s Hb Hd; [now repeat split|].
  cbn [map List.concat]. rewrite paints_app, exec_app.
  destruct (exec_frame cv a s) as [Hb' Hd'].
  destruct (IH _ Hb' Hd') as (IHp & IHb & IHd).
  rewrite IHp, (paints_frame cv a s Hb Hd). now repeat split.
Qed.

Lemma log_is_frames (cv : Canvas) (evs : list event) (angle0 dist0 : text) :
  exists angles,
    canvasLog (run cv evs (initParallaxSim cv angle0 dist0)) =
    List.concat (map (draw_ops cv) angles).
Proof.
  apply (run_invariant cv
           (fun w => exists angles,
                canvasLog w = List.concat (map (draw_ops cv) angles))).
  - intros ev w [angles Hw].
    destruct (handle_cases cv ev w) as [E | [E | (x & y & b & E)]]; rewrite E.
    + now exists angles.
    + now exists angles.
    + exists (angles ++ [atan2 (y - centerY cv) (x - centerX cv)]).
      rewrite map_app, List.concat_app. cbn [map List.concat]. rewrite app_nil_r.
      cbn. now rewrite Hw.
  - exists [0]. cbn [map List.concat]. now rewrite app_nil_r.
Qed.

(** X20: [draw] puts [shadowBlur] back to 0 and the line dash back to
    empty, and sets every other attribute before it paints with it.  So in
    a whole session, started on a fresh context, each frame paints exactly
    what it would paint alone on a fresh context: no glow and no dash leaks
    from one frame into the next. *)
Theorem X20_frames_do_not_leak_style :
  forall (cv : Canvas) (evs : list event) (angle0 dist0 : text),
    let w := run cv evs (initParallaxSim cv angle0 dist0) in
    exists angles : list R,
      canvasLog w = List.concat (map (draw_ops cv) angles) /\
      paints (canvasLog w) default_state =
        List.concat (map (fun a => paints (draw_ops cv a) default_state) angles) /\
      st_shadowBlur (exec (canvasLog w) default_state) = 0 /\
      st_lineDash (exec (canvasLog w) default_state) = [].
Proof.
  intros cv evs angle0 dist0 w. subst w.
  destruct (log_is_frames cv evs angle0 dist0) as [angles E].
  exists angles. rewrite E. split; [reflexivity|].
  now apply frames_paint_alike.
Qed.

(** * The sliders *)

Lemma sliders_step (inputs : list SizeEvents.input) (lum temp : R) :
  SizeEvents.run inputs (SizeEvents.updateStar lum temp) =
  SizeEvents.updateStar (SizeEvents.last_lum inputs lum)
                        (SizeEvents.last_temp inputs temp).
Proof.
  revert lum temp. unfold SizeEvents.run, SizeEvents.last_lum, SizeEvents.last_temp.
  induction inputs as [|i inputs IH]; intros lum temp; [reflexivity|].
  cbn [fold_left]. destruct i as [v | v]; cbn; apply IH.
Qed.

(** X19: [initSizeSim] calls [updateStar] once and both sliders call it on
    every input, and it reads both sliders again each time.  So after any
    inputs the page is what [updateStar] writes for the value each slider
    holds now, whichever slider moved last and whatever was shown before. *)
Theorem X19_page_follows_sliders :
  forall (inputs : list SizeEvents.input) (lum0 temp0 : R),
    let s := SizeEvents.run inputs (SizeEvents.initSizeSim lum0 temp0) in
    SizeEvents.lumSlider s = SizeEvents.last_lum inputs lum0 /\
    SizeEvents.tempSlider s = SizeEvents.last_temp inputs temp0 /\
    SizeEvents.page s =
      updateStar (SizeEvents.lumSlider s) (SizeEvents.tempSlider s).
Proof.
  intros inputs lum0 temp0 s. subst s.
  unfold SizeEvents.initSizeSim. rewrite sliders_step. now repeat split.
Qed.

(** * The clamp on binary64 *)

Lemma SFcompare_None (x y : spec_float) :
  SFcompare x y = None -> x = S754_nan \/ y = S754_nan.
Proof.
  destruct x as [sx | sx | | sx mx ex], y as [sy | sy | | sy my ey]; cbn;
    intros H; try discriminate H; auto.
Qed.

Section Float_clamp.

#[local] Set Warnings "-inexact-float".
Local Open Scope float_scope.

Lemma is_nan_false (x : float) : is_nan x = false -> Prim2SF x <> S754_nan.
Proof.
  unfold is_nan. rewrite FloatAxioms.eqb_spec. intros H E. rewrite E in H.
  discriminate H.
Qed.

Lemma ltb_false_leb (x y : float) :
  is_nan x = false -> is_nan y = false ->
  (x <? y) = false -> (y <=? x) = true.
Proof.
  intros Hx%is_nan_false Hy%is_nan_false.
  rewrite ltb_spec, leb_spec. unfold SFltb, SFleb.
  rewrite (SFcompare_antisym (Prim2SF x) (Prim2SF y)).
  destruct (SFcompare (Prim2SF x) (Prim2SF y)) as [[| |]|] eqn:E; cbn;
    try reflexivity; try discriminate.
  destruct (SFcompare_None _ _ E); contradiction.
Qed.

Lemma is_nan_true (x : float) : is_nan x = true -> Prim2SF x = S754_nan.
Proof.
  unfold is_nan. rewrite FloatAxioms.eqb_spec. unfold SFeqb. intros H.
  destruct (Prim2SF x) as [s | s | | s m e]; [| |reflexivity|]; exfalso.
  - discriminate H.
  - now destruct s.
  - unfold SFcompare in H.
    rewrite Z.compare_refl, Pos.compare_cont_refl in H. now destruct s.
Qed.

Lemma nan_not_ltb (x y : float) :
  is_nan x = true -> (x <? y) = false /\ (y <? x) = false.
Proof.
  intros H%is_nan_true. rewrite !ltb_spec, H. unfold SFltb.
  split; [reflexivity|]. now destruct (Prim2SF y).
Qed.

(** X21: on binary64 the pixel size is between 5 and 300 whenever
    [100 * R_rel] is a number; when it is NaN both tests fail and the pixel
    size is NaN as well. *)
Theorem X21_b64_pixel_size_range :
  forall L T : float,
    (is_nan (100 * Binary64.R_rel L T) = false ->
     (5 <=? Binary64.pxSize L T) = true /\
     (Binary64.pxSize L T <=? 300) = true) /\
    (is_nan (100 * Binary64.R_rel L T) = true ->
     is_nan (Binary64.pxSize L T) = true).
Proof.
  intros L T.
  destruct (b64_pxSize_clamp L T) as (Hlo & Hhi & Hmid).
  cbv zeta in Hlo, Hhi, Hmid.
  remember (100 * Binary64.R_rel L T) as raw eqn:Eraw.
  remember (Binary64.pxSize L T) as px eqn:Epx.
  clear Eraw Epx. split.
  - intros N.
    destruct (raw <? 5) eqn:E5; [rewrite (Hlo eq_refl); now split|].
    destruct (300 <? raw) eqn:E300; [rewrite (Hhi eq_refl); now split|].
    rewrite (Hmid eq_refl eq_refl).
    split; now apply ltb_false_leb.
  - intros N. destruct (nan_not_ltb raw 5 N) as [E5 _].
    destruct (nan_not_ltb raw 300 N) as [_ E300].
    now rewrite (Hmid E5 E300).
Qed.

End Float_clamp.

(** * Symmetries of the pointer and the drag flag *)

Lemma Rabs_eq_sqr (x y : R) : Rabs x = Rabs y -> x * x = y * y.
Proof.
  intros H. change (Rsqr x = Rsqr y).
  now rewrite (Rsqr_abs x), (Rsqr_abs y), H.
Qed.

Lemma Rabs_eq_0 (x y : R) : Rabs x = Rabs y -> x = 0 -> y = 0.
Proof.
  intros H ->. rewrite Rabs_R0 in H.
  destruct (Req_dec y 0) as [E | N]; [exact E|].
  apply Rabs_no_R0 in N. congruence.
Qed.

Lemma currentAngle_mirror (dy dx dy' dx' : R) :
  Rabs dx' = Rabs dx -> Rabs dy' = Rabs dy ->
  currentAngle (atan2 dy' dx') = currentAngle (atan2 dy dx).
Proof.
  intros Hx Hy.
  destruct (Req_dec dx 0) as [Ex | Nx], (Req_dec dy 0) as [Ey | Ny].
  - assert (dx' = 0) by (apply (Rabs_eq_0 dx); [now symmetry | exact Ex]).
    assert (dy' = 0) by (apply (Rabs_eq_0 dy); [now symmetry | exact Ey]).
    now subst.
  - assert (Ny' : dy' <> 0).
    { intros E. apply Ny. now apply (Rabs_eq_0 dy'). }
    rewrite !currentAngle_atan2 by auto.
    now rewrite Hx, (Rabs_eq_sqr _ _ Hx), (Rabs_eq_sqr _ _ Hy).
  - assert (Nx' : dx' <> 0).
    { intros E. apply Nx. now apply (Rabs_eq_0 dx'). }
    rewrite !currentAngle_atan2 by auto.
    now rewrite Hx, (Rabs_eq_sqr _ _ Hx), (Rabs_eq_sqr _ _ Hy).
  - assert (Nx' : dx' <> 0).
    { intros E. apply Nx. now apply (Rabs_eq_0 dx'). }
    rewrite !currentAngle_atan2 by auto.
    now rewrite Hx, (Rabs_eq_sqr _ _ Hx), (Rabs_eq_sqr _ _ Hy).
Qed.

(** X22: two presses whose offsets from the sun centre agree up to sign
    (mirror images in the vertical or the horizontal line through the sun,
    or opposite points) show the same parallax angle and the same
    distance. *)
Theorem X22_mirrored_presses_read_alike :
  forall (cv : Canvas) (e e' : MouseEvent) (w w' : World),
    Rabs (clientX e' - rect_left e' - centerX cv) =
      Rabs (clientX e - rect_left e - centerX cv) ->
    Rabs (clientY e' - rect_top e' - centerY cv) =
      Rabs (clientY e - rect_top e - centerY cv) ->
    angleDisplay (on_mousedown cv e' w') = angleDisplay (on_mousedown cv e w) /\
    distDisplay (on_mousedown cv e' w') = distDisplay (on_mousedown cv e w).
Proof.
  intros cv e e' w w' Hx Hy.
  pose proof (currentAngle_mirror _ _ _ _ Hx Hy) as E.
  unfold on_mousedown.
  cbn [updateEarthPos updateData angleDisplay distDisplay draw set_earthAngle
       earthAngle].
  unfold dist. now rewrite E.
Qed.

Lemma X22_mirrored_presses_read_alike_witness :
  let e' := {| clientX := 310; clientY := 390; rect_left := 10; rect_top := 10 |} in
  angleDisplay (on_mousedown canvas0 e' world0) =
    angleDisplay (on_mousedown canvas0 press_near world0) /\
  distDisplay (on_mousedown canvas0 e' world0) =
    distDisplay (on_mousedown canvas0 press_near world0).
Proof.
  apply (X22_mirrored_presses_read_alike canvas0 press_near
           {| clientX := 310; clientY := 390; rect_left := 10; rect_top := 10 |}
           world0 world0).
  - unfold centerX. cbn.
    replace (310 - 10 - 800 / 2) with (- (510 - 10 - 800 / 2)) by lra.
    apply Rabs_Ropp.
  - reflexivity.
Defined.

(** X23: the drag flag is a two-state machine driven by the kind of the
    events alone: after any events it is what presses and releases, in
    their order, make of the initial flag, whatever the pointer positions
    and the angle. *)
Theorem X23_drag_flag_machine :
  forall (cv : Canvas) (evs : list event) (w : World),
    isDragging (run cv evs w) = dragging_after evs (isDragging w).
Proof.
  intros cv evs. unfold run, dragging_after.
  induction evs as [|ev evs IH]; intros w; [reflexivity|].
  cbn [fold_left]. rewrite IH. f_equal.
  destruct ev as [e | e |]; [reflexivity | | reflexivity].
  cbn [handle]. unfold on_mousemove.
  destruct (isDragging w) eqn:D; cbn; [exact D | exact D].
Qed.
